(** * DisplayPage: the public link page of linkapp

    A shallow embedding of [src/pages/DisplayPage.jsx]: the data rows the
    component reads, the effect that loads them ([fetchPageAndLinks]), the
    two helpers ([handleAvatarClick], [getFaviconUrl]), the render function,
    and the error handler of the link images.

    The component talks to three collaborators that live outside the file:
    the data service ([supabase]), the router ([navigate]) and the console.
    Calls to them are recorded as events of a trace; the answers of the data
    service are supplied by a [Backend] record. *)

From Stdlib Require Import ZArith List String Ascii Bool Lia.
From Stdlib Require Import Permutation Sorted.
Import ListNotations.

Local Open Scope string_scope.
Local Open Scope list_scope.

(* ------------------------------------------------------------------ *)
(** ** Rows read from the data service *)

(** A row of table [pages]. *)
Module Page.
Record t := mk
  { id : Z;
    slug : string;
    title : string;
    description : string;
    user_id : string }.
End Page.

(** A row of table [images] as selected by [select('image_url')]. *)
Module Image.
Record t := mk { image_url : option string }.
End Image.

(** A row of table [links]. *)
Module Link.
Record t := mk
  { id : Z;
    page_id : Z;
    url : string;
    title : string;
    description : option string;
    image_url : option string;
    created_at : Z }.
End Link.

(** The identity returned by [supabase.auth.getUser()]. *)
Module User.
Record t := mk { id : string }.
End User.

(** The error object of a failed query; the source reads its [code]. *)
Module PostgrestError.
Record t := mk { code : string; message : string }.
End PostgrestError.

(** The object a query resolves to, [{ data, error }]: either the data with
    a null error, or an error with null data. *)
Inductive PostgrestResponse (T : Type) : Type :=
| Success (data : T)
| Failure (error : PostgrestError.t).
Arguments Success {T} data.
Arguments Failure {T} error.

(* ------------------------------------------------------------------ *)
(** ** JavaScript values as conditions *)

(** Truthiness of a value that is [null] or a string: [null] and the empty
    string are falsy. *)
Definition truthy (v : option string) : bool :=
  match v with
  | Some s => negb (String.eqb s "")
  | None => false
  end.

(** [s[0]]: the first element of a string, [undefined] on the empty one.
    A string is the sequence of its elements, as the index operator sees
    it. *)
Definition char0 (s : string) : option ascii := String.get 0 s.

(* ------------------------------------------------------------------ *)
(** ** Events *)

(** A network read, with the arguments the source passes to the query
    builder. *)
Inductive Request : Type :=
| PagesBySlug (slug : string)
    (* from('pages').select('*').eq('slug', slug).single() *)
| ImagesByUser (user_id : string)
    (* from('images').select('image_url').eq('user_id', ...).single() *)
| LinksByPage (page_id : Z) (ascending : bool)
    (* from('links').select('*').eq('page_id', ...)
         .order('created_at', { ascending }) *)
| AuthGetUser.
    (* auth.getUser() *)

(** Values that are thrown and caught. *)
Inductive Exn : Type :=
| PgError (e : PostgrestError.t)
| TypeError (msg : string).

(** What is passed to [console.error] after the label. *)
Inductive Payload : Type :=
| PExn (e : Exn)
| PStr (s : string).

Inductive Event : Type :=
| Issue (r : Request)            (* the request leaves *)
| Settle (r : Request)           (* its promise resolves *)
| SetPage (v : option Page.t)
| SetLinks (v : list Link.t)
| SetLoading (v : bool)
| SetError (v : option string)
| SetUser (v : option User.t)
| SetAvatarUrl (v : option string)
| Navigate (path : string)
| ConsoleError (label : string) (payload : Payload).

(* ------------------------------------------------------------------ *)
(** ** The effect monad

    A computation yields the events it performed, in order, and how it
    completed: normally with a value, by a [return] statement, or by a
    thrown value. *)

Inductive Completion (A : Type) : Type :=
| Normal (a : A)
| Returned
| Thrown (e : Exn).
Arguments Normal {A} a.
Arguments Returned {A}.
Arguments Thrown {A} e.

Definition Eff (A : Type) : Type := (list Event * Completion A)%type.

Definition ret {A} (a : A) : Eff A := ([], Normal a).

Definition bind {A B} (m : Eff A) (f : A -> Eff B) : Eff B :=
  match m with
  | (t, Normal a) => let (t', c) := f a in (t ++ t', c)
  | (t, Returned) => (t, Returned)
  | (t, Thrown e) => (t, Thrown e)
  end.

Declare Scope eff_scope.
Delimit Scope eff_scope with eff.
Notation "x <- m ;; k" := (bind m (fun x => k))
  (at level 61, m at next level, right associativity) : eff_scope.
Notation "m ;; k" := (bind m (fun _ => k))
  (at level 61, right associativity) : eff_scope.
Local Open Scope eff_scope.

Definition emit (e : Event) : Eff unit := ([e], Normal tt).
Definition throw {A} (e : Exn) : Eff A := ([], Thrown e).
Definition return_ {A} : Eff A := ([], Returned).

(** [await] of a request: the function is suspended from the moment the
    request leaves until its promise resolves with [answer]. *)
Definition await {T} (r : Request) (answer : T) : Eff T :=
  ([Issue r; Settle r], Normal answer).

(** [try { body } catch (e) { handler e }]. *)
Definition try_catch {A} (body : Eff A) (handler : Exn -> Eff A) : Eff A :=
  match body with
  | (t, Thrown e) => let (t', c) := handler e in (t ++ t', c)
  | other => other
  end.

(** [try { body } finally { fin }]: [fin] runs whatever the completion of
    [body]; that completion stands unless [fin] itself completes abruptly. *)
Definition finally_ {A} (body : Eff A) (fin : Eff unit) : Eff A :=
  let (t, c) := body in
  match fin with
  | (t', Normal _) => (t ++ t', c)
  | (t', Returned) => (t ++ t', Returned)
  | (t', Thrown e) => (t ++ t', Thrown e)
  end.

Definition trace {A} (m : Eff A) : list Event := fst m.
Definition completion {A} (m : Eff A) : Completion A := snd m.

(** The value of a computation that completed normally. *)
Definition value {A} (m : Eff A) : option A :=
  match completion m with
  | Normal a => Some a
  | _ => None
  end.

Fixpoint mapM {A B} (f : A -> Eff B) (l : list A) : Eff (list B) :=
  match l with
  | [] => ret []
  | x :: xs => y <- f x ;; ys <- mapM f xs ;; ret (y :: ys)
  end.

(* ------------------------------------------------------------------ *)
(** ** Component state *)

Record State : Type := mkState
  { page : option Page.t;
    links : list Link.t;
    loading : bool;
    error : option string;
    user : option User.t;
    avatarUrl : option string }.

(** The values given to [useState] when the component mounts. *)
Definition mount_state : State :=
  {| page := None; links := []; loading := true;
     error := None; user := None; avatarUrl := None |}.

(** The setters replace one field; the other events leave the state alone. *)
Definition apply (s : State) (e : Event) : State :=
  match e with
  | SetPage v => mkState v (links s) (loading s) (error s) (user s) (avatarUrl s)
  | SetLinks v => mkState (page s) v (loading s) (error s) (user s) (avatarUrl s)
  | SetLoading v => mkState (page s) (links s) v (error s) (user s) (avatarUrl s)
  | SetError v => mkState (page s) (links s) (loading s) v (user s) (avatarUrl s)
  | SetUser v => mkState (page s) (links s) (loading s) (error s) v (avatarUrl s)
  | SetAvatarUrl v => mkState (page s) (links s) (loading s) (error s) (user s) v
  | _ => s
  end.

(** The state after a sequence of events. *)
Definition reduce (s : State) (t : list Event) : State := fold_left apply t s.

(** The state after the first [k] events of [t]: what a render that happens
    at that point sees. *)
Definition frame (s : State) (t : list Event) (k : nat) : State :=
  reduce s (firstn k t).

(* ------------------------------------------------------------------ *)
(** ** The data service

    One answer per query of the source. Every call resolves: a query that
    fails resolves to a response that carries the error (the source tests
    [error] and never relies on a rejected promise), and [auth.getUser()]
    resolves to the signed-in user or to null. *)

Record Backend : Type := mkBackend
  { pages_single : string -> PostgrestResponse Page.t;
    images_single : string -> PostgrestResponse Image.t;
    links_ordered : Z -> bool -> PostgrestResponse (list Link.t);
    auth_user : option User.t }.

Definition generic_error : string := "Failed to load page. Please try again.".

Section Loader.

Variable supabase : Backend.

(** The body of the [try] block of [fetchPageAndLinks]. *)
Definition fetch_body (slug : string) : Eff unit :=
  r <- await (PagesBySlug slug) (pages_single supabase slug) ;;
  pageData <-
    match r with
    | Failure pageError =>
        if String.eqb (PostgrestError.code pageError) "PGRST116"
        then emit (Navigate "/404") ;; return_
        else throw (PgError pageError)
    | Success pageData => ret pageData
    end ;;
  emit (SetPage (Some pageData)) ;;
  r <- await (ImagesByUser (Page.user_id pageData))
             (images_single supabase (Page.user_id pageData)) ;;
  match r with
  | Failure avatarError =>
      emit (ConsoleError "Error fetching avatar:" (PExn (PgError avatarError)))
  | Success avatarData => emit (SetAvatarUrl (Image.image_url avatarData))
  end ;;
  r <- await (LinksByPage (Page.id pageData) true)
             (links_ordered supabase (Page.id pageData) true) ;;
  linksData <-
    match r with
    | Failure linksError => throw (PgError linksError)
    | Success linksData => ret linksData
    end ;;
  emit (SetLinks linksData) ;;
  user <- await AuthGetUser (auth_user supabase) ;;
  emit (SetUser user).

(** [fetchPageAndLinks], run by the effect for the current [slug]. *)
Definition fetchPageAndLinks (slug : string) : Eff unit :=
  emit (SetLoading true) ;;
  finally_
    (try_catch
       (fetch_body slug)
       (fun error =>
          emit (ConsoleError "Error fetching page:" (PExn error)) ;;
          emit (SetError (Some generic_error))))
    (emit (SetLoading false)).

(** The events of one load and the state it leaves a freshly mounted
    component in. *)
Definition load (slug : string) : list Event := trace (fetchPageAndLinks slug).
Definition loaded_state (slug : string) : State := reduce mount_state (load slug).

End Loader.

(* ------------------------------------------------------------------ *)
(** ** What the component renders *)

(** The radix [Avatar]: an image source and the glyph shown without one. *)
Record AvatarEl : Type := mkAvatar
  { avatar_src : option string;
    avatar_fallback : option ascii }.

(** One link card: the anchor, its image and its texts. *)
Record Anchor : Type := mkAnchor
  { key : Z;
    href : string;
    target : string;
    rel : string;
    img_src : option string;
    img_alt : string;
    link_title : string;
    link_description : option string }.

(** The page card. [link_box] is absent when there is no link; [edit_to] is
    the path of the edit link when it is rendered. *)
Record Card : Type := mkCard
  { cursor : string;
    avatar : AvatarEl;
    heading : string;
    text : string;
    link_box : option (list Anchor);
    edit_to : option string }.

Inductive View : Type :=
| Spinner (message : string)          (* <LoadingSpinner message=... /> *)
| ErrorText (error : option string)   (* <div>Error: {error}</div> *)
| NotFoundText                        (* <div>Page not found</div> *)
| PageCard (c : Card).

(** The anchors of a card, in the order they are laid out. *)
Definition anchors (c : Card) : list Anchor :=
  match link_box c with
  | Some l => l
  | None => []
  end.

(** The result of [new URL(url)], as far as the source reads it. *)
Module Url.
Record t := mk { hostname : string }.
End Url.

(** [user && user.id === page.user_id], written three times in the source
    (lines 91, 123 and 178). *)
Definition owner_check (user : option User.t) (page : Page.t) : bool :=
  match user with
  | Some u => String.eqb (User.id u) (Page.user_id page)
  | None => false
  end.

Section Component.

(** The platform's URL parser: [None] where [new URL(url)] throws. *)
Variable URL_parse : string -> option Url.t.

Definition new_URL (url : string) : Eff Url.t :=
  match URL_parse url with
  | Some u => ret u
  | None => throw (TypeError "Invalid URL")
  end.

Definition getFaviconUrl (url : string) : Eff (option string) :=
  try_catch
    (u <- new_URL url ;;
     let domain := Url.hostname u in
     ret (Some ("https://www.google.com/s2/favicons?domain=" ++ domain ++ "&sz=64")%string))
    (fun _ => emit (ConsoleError "Invalid URL:" (PStr url)) ;; ret None).

Definition handleAvatarClick (s : State) : Eff unit :=
  match user s with
  | None => ret tt
  | Some u =>
      match page s with
      | None => throw (TypeError "Cannot read properties of null")
      | Some p =>
          if String.eqb (User.id u) (Page.user_id p)
          then emit (Navigate "/profile")
          else ret tt
      end
  end.

Definition render_link (link : Link.t) : Eff Anchor :=
  src <- (if truthy (Link.image_url link)
          then ret (Link.image_url link)
          else getFaviconUrl (Link.url link)) ;;
  ret {| key := Link.id link;
         href := Link.url link;
         target := "_blank";
         rel := "noopener noreferrer";
         img_src := src;
         img_alt := Link.title link;
         link_title := Link.title link;
         link_description := Link.description link |}.

Definition render_card (s : State) (p : Page.t) : Eff View :=
  box <- (if (0 <? List.length (links s))%nat
          then l <- mapM render_link (links s) ;; ret (Some l)
          else ret None) ;;
  ret (PageCard
         {| cursor := if owner_check (user s) p then "pointer" else "default";
            avatar := {| avatar_src := avatarUrl s;
                         avatar_fallback := char0 (Page.title p) |};
            heading := Page.title p;
            text := Page.description p;
            link_box := box;
            edit_to := if owner_check (user s) p
                       then Some ("/" ++ Page.slug p ++ "/edit")%string
                       else None |}).

Definition render (s : State) : Eff View :=
  if loading s then ret (Spinner "Loading...")
  else if truthy (error s) then ret (ErrorText (error s))
  else match page s with
       | None => ret NotFoundText
       | Some p => render_card s p
       end.

End Component.

(** The four things the component can show. *)
Inductive UiState : Type := Loading | Errored | NotFound | Loaded.

Definition ui_state (v : View) : UiState :=
  match v with
  | Spinner _ => Loading
  | ErrorText _ => Errored
  | NotFoundText => NotFound
  | PageCard _ => Loaded
  end.

(* ------------------------------------------------------------------ *)
(** ** The image element and its error handler

    The handler given as [onError] to the link image assigns two properties
    of the element it is called on ([e.target]), in this order. *)

Module Dom.

(** The one handler of the source: the arrow function of lines 155-158. *)
Inductive Handler : Type := FallbackHandler.

(** An [img] element: its source, its [onerror] property, and the
    handlers attached to its error event as listeners. *)
Record Img : Type := mkImg
  { src : option string;
    onerror : option Handler;
    listeners : list Handler }.

Inductive Write : Type :=
| SetOnerror (v : option Handler)   (* e.target.onerror = v *)
| SetSrc (v : string).              (* e.target.src = v *)

Definition default_asset : string := "/assets/react.svg".

(** The body of the handler. *)
Definition onError (h : Handler) : list Write :=
  match h with
  | FallbackHandler => [SetOnerror None; SetSrc default_asset]
  end.

Definition write (i : Img) (w : Write) : Img :=
  match w with
  | SetOnerror v => mkImg (src i) v (listeners i)
  | SetSrc v => mkImg (Some v) (onerror i) (listeners i)
  end.

Definition run (i : Img) (h : Handler) : Img := fold_left write (onError h) i.

(** The handlers an error event is delivered to: the one held by the
    [onerror] property, if any, and the attached listeners. *)
Definition receivers (i : Img) : list Handler :=
  match onerror i with
  | Some h => h :: listeners i
  | None => listeners i
  end.

(** React attaches the [onError] prop of an [img] to the element as a
    listener of its error event; the element's [onerror] property stays
    null. *)
Definition mount_react (s : option string) : Img :=
  {| src := s; onerror := None; listeners := [FallbackHandler] |}.

(** For comparison: the same handler set as the element's [onerror]
    property, the way plain markup does. *)
Definition mount_property (s : option string) : Img :=
  {| src := s; onerror := Some FallbackHandler; listeners := [] |}.

(** The element after the handler ran under React. *)
Definition substituted : Img :=
  {| src := Some default_asset; onerror := None;
     listeners := [FallbackHandler] |}.

Section Loading.

(** Which sources the browser manages to load. *)
Variable available : string -> bool.

(** An element without source loads nothing and fails nothing. *)
Definition fails (i : Img) : bool :=
  match src i with
  | Some u => negb (available u)
  | None => false
  end.

(** The element over at most [rounds] load attempts: a failed attempt
    fires the error event, its receivers run, and the source they
    assigned is attempted next. The count is the number of times the
    handler ran. *)
Fixpoint settle (rounds : nat) (i : Img) : nat * Img :=
  match rounds with
  | O => (O, i)
  | S r =>
      if fails i
      then match receivers i with
           | [] => (O, i)
           | hs => let (n, i') := settle r (fold_left run hs i) in
                   (List.length hs + n, i')
           end
      else (O, i)
  end.

Definition firings (rounds : nat) (i : Img) : nat := fst (settle rounds i).

End Loading.

End Dom.

(* ------------------------------------------------------------------ *)
(** ** A reference data service over stored rows

    The queries of the source, answered from tables held in memory. It
    shows what the loader's requests ask for; loads that fail in other ways
    are obtained by overriding one answer. *)

Module Store.

Record ImageRow : Type := mkImageRow
  { image_user_id : string;
    image_row_url : option string }.

Record t : Type := mk
  { pages : list Page.t;
    images : list ImageRow;
    links : list Link.t;
    session : option User.t }.

Definition no_rows : PostgrestError.t :=
  {| PostgrestError.code := "PGRST116";
     PostgrestError.message := "JSON object requested, multiple (or no) rows returned" |}.

(** [.single()]: exactly one row, or the error above. *)
Definition single {T} (rows : list T) : PostgrestResponse T :=
  match rows with
  | [r] => Success r
  | _ => Failure no_rows
  end.

(** [.order('created_at', { ascending })]. *)
Definition before (ascending : bool) (a b : Link.t) : bool :=
  if ascending
  then (Link.created_at a <=? Link.created_at b)%Z
  else (Link.created_at b <=? Link.created_at a)%Z.

Fixpoint insert (ascending : bool) (x : Link.t) (l : list Link.t) : list Link.t :=
  match l with
  | [] => [x]
  | y :: ys => if before ascending x y then x :: y :: ys
               else y :: insert ascending x ys
  end.

Fixpoint order (ascending : bool) (l : list Link.t) : list Link.t :=
  match l with
  | [] => []
  | x :: xs => insert ascending x (order ascending xs)
  end.

(** [.eq('page_id', id)]. *)
Definition of_page (id : Z) (l : list Link.t) : list Link.t :=
  filter (fun r => (Link.page_id r =? id)%Z) l.

Definition In_order (ascending : bool) (a b : Link.t) : Prop :=
  before ascending a b = true.

(** Ascending order: every row is no younger than those after it. *)
Definition Oldest_first : list Link.t -> Prop :=
  StronglySorted (fun a b => (Link.created_at a <= Link.created_at b)%Z).

(** An answer to the link query of page [id] that is drawn from the
    stored rows [rows] and honours the requested order. *)
Definition answers_from (rows : list Link.t) (id : Z) (ascending : bool)
    (r : PostgrestResponse (list Link.t)) : Prop :=
  exists ls, r = Success ls /\
             Permutation ls (of_page id rows) /\
             Sorted (In_order ascending) ls.

Definition backend (st : t) : Backend :=
  {| pages_single := fun slug =>
       single (filter (fun p => String.eqb (Page.slug p) slug) (pages st));
     images_single := fun uid =>
       single (map (fun r => Image.mk (image_row_url r))
                   (filter (fun r => String.eqb (image_user_id r) uid) (images st)));
     links_ordered := fun id ascending =>
       Success (order ascending (of_page id (links st)));
     auth_user := session st |}.

End Store.

(** A backend whose link query fails with [e]. *)
Definition with_links_failure (b : Backend) (e : PostgrestError.t) : Backend :=
  {| pages_single := pages_single b;
     images_single := images_single b;
     links_ordered := fun _ _ => Failure e;
     auth_user := auth_user b |}.

(** A backend whose page query fails with [e]. *)
Definition with_page_failure (b : Backend) (e : PostgrestError.t) : Backend :=
  {| pages_single := fun _ => Failure e;
     images_single := images_single b;
     links_ordered := links_ordered b;
     auth_user := auth_user b |}.

(** A small stand-in for the URL parser, enough to run the component on
    examples: it accepts [http://host...] and [https://host...] with a
    non-empty host and rejects everything else. *)
Module MiniUrl.

Fixpoint host (s : string) : string :=
  match s with
  | EmptyString => EmptyString
  | String c r =>
      if (Ascii.eqb c "/" || Ascii.eqb c "?" || Ascii.eqb c "#" || Ascii.eqb c ":")%bool
      then EmptyString
      else String c (host r)
  end.

Definition after (p s : string) : option string :=
  if String.prefix p s
  then Some (String.substring (String.length p) (String.length s - String.length p) s)
  else None.

Definition parse (s : string) : option Url.t :=
  let rest := match after "https://" s with
              | Some r => Some r
              | None => after "http://" s
              end in
  match rest with
  | Some r => if String.eqb (host r) "" then None else Some (Url.mk (host r))
  | None => None
  end.

End MiniUrl.

(* ------------------------------------------------------------------ *)
(** ** Notions used to state the properties *)

(** The event of the avatar step: a log entry on failure, the setter on
    success. *)
Definition avatar_event (r : PostgrestResponse Image.t) : Event :=
  match r with
  | Failure avatarError =>
      ConsoleError "Error fetching avatar:" (PExn (PgError avatarError))
  | Success avatarData => SetAvatarUrl (Image.image_url avatarData)
  end.

(** The avatar source after the avatar step, starting from [before]. *)
Definition avatar_after (before : option string)
    (r : PostgrestResponse Image.t) : option string :=
  match r with
  | Success avatarData => Image.image_url avatarData
  | Failure _ => before
  end.

(** The view shown in state [s]. *)
Definition shown (parse : string -> option Url.t) (s : State) : option View :=
  value (render parse s).

(** Which of the four the component shows in state [s]. *)
Definition shown_ui (parse : string -> option Url.t) (s : State)
  : option UiState :=
  option_map ui_state (shown parse s).

(** An event that is not a call of [setLoading]. *)
Definition keeps_loading (e : Event) : Prop := forall v, e <> SetLoading v.

(** What an anchor shows of the link row it was made from. *)
Definition shows (l : Link.t) (a : Anchor) : Prop :=
  key a = Link.id l /\
  href a = Link.url l /\
  target a = "_blank" /\
  rel a = "noopener noreferrer" /\
  img_alt a = Link.title l /\
  link_title a = Link.title l /\
  link_description a = Link.description l.

Definition favicon_of (domain : string) : string :=
  ("https://www.google.com/s2/favicons?domain=" ++ domain ++ "&sz=64")%string.

(** There is an authenticated viewer, and its id is the id of the user who
    owns page [p]. *)
Definition is_owner (s : State) (p : Page.t) : Prop :=
  exists u, user s = Some u /\ User.id u = Page.user_id p.

(** The requests of a trace, in the order they leave. *)
Fixpoint requests (t : list Event) : list Request :=
  match t with
  | [] => []
  | Issue r :: t' => r :: requests t'
  | _ :: t' => requests t'
  end.

(** The number of requests that have left and not yet resolved, after the
    events [t], when [n] were under way before. *)
Definition flight_step (n : nat) (e : Event) : nat :=
  match e with
  | Issue _ => S n
  | Settle _ => pred n
  | _ => n
  end.

Definition in_flight_from (n : nat) (t : list Event) : nat :=
  fold_left flight_step t n.

Definition in_flight (t : list Event) : nat := in_flight_from 0 t.

Definition is_network (e : Event) : Prop :=
  match e with
  | Issue _ | Settle _ => True
  | _ => False
  end.

(** A trace in which every request resolves before anything else happens. *)
Inductive Sequential : list Event -> Prop :=
| Sequential_nil : Sequential []
| Sequential_read (r : Request) (t : list Event) :
    Sequential t -> Sequential (Issue r :: Settle r :: t)
| Sequential_other (e : Event) (t : list Event) :
    ~ is_network e -> Sequential t -> Sequential (e :: t).

(** The only value the source ever gives to [setError]. *)
Definition sets_generic (e : Event) : Prop :=
  forall v, e = SetError v -> v = Some generic_error.

Definition unset_or_generic (s : State) : Prop :=
  error s = None \/ error s = Some generic_error.

(** The element React creates for the image of anchor [a]. *)
Definition link_image (a : Anchor) : Dom.Img := Dom.mount_react (img_src a).

(* ------------------------------------------------------------------ *)
(** ** Sample data *)

Module Sample.

Definition alice : User.t := User.mk "u-alice".
Definition bob : User.t := User.mk "u-bob".

Definition alice_page : Page.t :=
  Page.mk 7 "alice" "Alice" "Links of Alice" "u-alice".

Definition blog : Link.t :=
  Link.mk 31 7 "https://blog.example.org/posts" "Blog" None None 300.
Definition shop : Link.t :=
  Link.mk 32 7 "https://shop.example.org" "Shop" (Some "My shop")
          (Some "https://cdn.example.org/shop.png") 100.
Definition broken : Link.t :=
  Link.mk 33 7 "not a url" "Broken" None None 200.
Definition other : Link.t :=
  Link.mk 34 8 "https://elsewhere.example.org" "Other" None None 50.

Definition store : Store.t :=
  {| Store.pages := [alice_page];
     Store.images := [];
     Store.links := [blog; shop; other; broken];
     Store.session := Some alice |}.

Definition timeout : PostgrestError.t :=
  PostgrestError.mk "57014" "canceling statement due to statement timeout".

(** The service over [store], and the same with a link query that times
    out. *)
Definition service : Backend := Store.backend store.
Definition flaky : Backend := with_links_failure service timeout.

End Sample.

(* ------------------------------------------------------------------ *)
(** ** The effect over the life of one component

    The effect of lines 29-88 runs [fetchPageAndLinks] when the component
    mounts and again whenever [slug] changes (its dependency list); the
    state of the component is kept from one run to the next. *)

(** One more run of the effect, on a component in state [s]. *)
Definition revisit (s : State) (v : Backend * string) : State :=
  reduce s (load (fst v) (snd v)).

(** The state after the runs [visits], the first of them at mount. *)
Definition session (visits : list (Backend * string)) : State :=
  fold_left revisit visits mount_state.

(** ** What a link card draws *)

(** The source line 152 gives to the image of a link: its own image when
    it has a non-empty one, else the favicon of its address, if any. *)
Definition image_source (parse : string -> option Url.t) (l : Link.t)
  : option string :=
  if truthy (Link.image_url l)
  then Link.image_url l
  else option_map (fun u => favicon_of (Url.hostname u)) (parse (Link.url l)).

(** A link for which the favicon helper is called and rejects the address. *)
Definition unparsable (parse : string -> option Url.t) (l : Link.t) : bool :=
  negb (truthy (Link.image_url l)) &&
  match parse (Link.url l) with
  | Some _ => false
  | None => true
  end.

(** The console entries of the favicon helper for the links [ls]. *)
Definition invalid_url_entries (parse : string -> option Url.t)
    (ls : list Link.t) : list Event :=
  map (fun l => ConsoleError "Invalid URL:" (PStr (Link.url l)))
      (filter (unparsable parse) ls).

(** ** More sample data: two pages, one of them with an avatar row *)

Module Gallery.

Definition carol_page : Page.t :=
  Page.mk 9 "carol" "Carol" "Links of Carol" "u-carol".

Definition blank : Link.t :=
  Link.mk 41 9 "https://carol.example.org" "Home" None (Some "") 10.

Definition store : Store.t :=
  {| Store.pages := [Sample.alice_page; carol_page];
     Store.images := [Store.mkImageRow "u-carol" (Some "https://cdn.example.org/carol.png")];
     Store.links := [Sample.blog; Sample.shop; Sample.broken; blank];
     Store.session := None |}.

Definition service : Backend := Store.backend store.

End Gallery.

(* ------------------------------------------------------------------ *)
(** ** The four shapes of a load *)

(** Runs a load whose page answer [Hp] is known, then uses [Hc]. *)
Ltac run_load Hp Hc :=
  unfold fetchPageAndLinks, fetch_body; rewrite Hp; cbn; rewrite Hc; cbn.

Section Shapes.

Variable b : Backend.
Variable slug : string.

Lemma fetch_not_found (e : PostgrestError.t) :
  pages_single b slug = Failure e ->
  PostgrestError.code e = "PGRST116" ->
  fetchPageAndLinks b slug =
    ([SetLoading true;
      Issue (PagesBySlug slug); Settle (PagesBySlug slug);
      Navigate "/404";
      SetLoading false], Returned).
Proof. intros Hp Hc. run_load Hp Hc. reflexivity. Qed.

Lemma fetch_page_error (e : PostgrestError.t) :
  pages_single b slug = Failure e ->
  PostgrestError.code e <> "PGRST116" ->
  fetchPageAndLinks b slug =
    ([SetLoading true;
      Issue (PagesBySlug slug); Settle (PagesBySlug slug);
      ConsoleError "Error fetching page:" (PExn (PgError e));
      SetError (Some generic_error);
      SetLoading false], Normal tt).
Proof.
  intros Hp Hc. apply String.eqb_neq in Hc. run_load Hp Hc. reflexivity.
Qed.

Lemma fetch_links_error (p : Page.t) (e : PostgrestError.t) :
  pages_single b slug = Success p ->
  links_ordered b (Page.id p) true = Failure e ->
  fetchPageAndLinks b slug =
    ([SetLoading true;
      Issue (PagesBySlug slug); Settle (PagesBySlug slug);
      SetPage (Some p);
      Issue (ImagesByUser (Page.user_id p)); Settle (ImagesByUser (Page.user_id p));
      avatar_event (images_single b (Page.user_id p));
      Issue (LinksByPage (Page.id p) true); Settle (LinksByPage (Page.id p) true);
      ConsoleError "Error fetching page:" (PExn (PgError e));
      SetError (Some generic_error);
      SetLoading false], Normal tt).
Proof.
  intros Hp Hl. run_load Hp Hl.
  destruct (images_single b (Page.user_id p)); reflexivity.
Qed.

Lemma fetch_ok (p : Page.t) (ls : list Link.t) :
  pages_single b slug = Success p ->
  links_ordered b (Page.id p) true = Success ls ->
  fetchPageAndLinks b slug =
    ([SetLoading true;
      Issue (PagesBySlug slug); Settle (PagesBySlug slug);
      SetPage (Some p);
      Issue (ImagesByUser (Page.user_id p)); Settle (ImagesByUser (Page.user_id p));
      avatar_event (images_single b (Page.user_id p));
      Issue (LinksByPage (Page.id p) true); Settle (LinksByPage (Page.id p) true);
      SetLinks ls;
      Issue AuthGetUser; Settle AuthGetUser;
      SetUser (auth_user b);
      SetLoading false], Normal tt).
Proof.
  intros Hp Hl. run_load Hp Hl.
  destruct (images_single b (Page.user_id p)); reflexivity.
Qed.

(** Every load is of one of the four shapes. *)
Lemma outcome_cases :
  (exists e, pages_single b slug = Failure e /\
             PostgrestError.code e = "PGRST116")
  \/ (exists e, pages_single b slug = Failure e /\
                PostgrestError.code e <> "PGRST116")
  \/ (exists p e, pages_single b slug = Success p /\
                  links_ordered b (Page.id p) true = Failure e)
  \/ (exists p ls, pages_single b slug = Success p /\
                   links_ordered b (Page.id p) true = Success ls).
Proof.
  destruct (pages_single b slug) as [p|e] eqn:Hp.
  - destruct (links_ordered b (Page.id p) true) as [ls|e] eqn:Hl.
    + right; right; right. eauto.
    + right; right; left. eauto.
  - destruct (String.eqb_spec (PostgrestError.code e) "PGRST116").
    + left. eauto.
    + right; left. eauto.
Qed.

End Shapes.

(* ------------------------------------------------------------------ *)
(** ** Rendering always produces a view *)

Section RenderFacts.

Variable parse : string -> option Url.t.

Lemma getFaviconUrl_cases (url : string) :
  getFaviconUrl parse url =
    match parse url with
    | Some u => ([], Normal (Some (favicon_of (Url.hostname u))))
    | None => ([ConsoleError "Invalid URL:" (PStr url)], Normal None)
    end.
Proof.
  unfold getFaviconUrl, new_URL. destruct (parse url); reflexivity.
Qed.

Lemma render_link_normal (l : Link.t) :
  exists log a, render_link parse l = (log, Normal a) /\ shows l a.
Proof.
  unfold render_link. destruct (truthy (Link.image_url l)).
  - cbn. do 2 eexists. split; [reflexivity|]. repeat split.
  - rewrite getFaviconUrl_cases. destruct (parse (Link.url l)); cbn;
      (do 2 eexists; split; [reflexivity|]; repeat split).
Qed.

Lemma mapM_render_link (ls : list Link.t) :
  exists log l', mapM (render_link parse) ls = (log, Normal l') /\
                 Forall2 shows ls l'.
Proof.
  induction ls as [|l ls IH]; cbn.
  - exists [], []. split; [reflexivity | constructor].
  - destruct (render_link_normal l) as (log & a & Ha & Hs).
    destruct IH as (log' & l' & Hm & Hf).
    rewrite Ha. cbn. rewrite Hm. cbn.
    do 2 eexists. split; [reflexivity|]. constructor; assumption.
Qed.

(** Once loading is over, with no error and a page, the card is shown;
    its fields are those of lines 119-189. *)
Lemma render_loaded (s : State) (p : Page.t) :
  loading s = false ->
  truthy (error s) = false ->
  page s = Some p ->
  exists log c,
    render parse s = (log, Normal (PageCard c)) /\
    cursor c = (if owner_check (user s) p then "pointer" else "default") /\
    avatar c = {| avatar_src := avatarUrl s;
                  avatar_fallback := char0 (Page.title p) |} /\
    heading c = Page.title p /\
    edit_to c = (if owner_check (user s) p
                 then Some ("/" ++ Page.slug p ++ "/edit")%string
                 else None) /\
    Forall2 shows (links s) (anchors c).
Proof.
  intros Hl He Hp. unfold render, render_card. rewrite Hl, He, Hp.
  destruct (links s) as [|l ls] eqn:Hls.
  - cbn. do 2 eexists. split; [reflexivity|]. cbn. repeat split. constructor.
  - destruct (mapM_render_link (l :: ls)) as (log & l' & Hm & Hf).
    replace (0 <? List.length (l :: ls))%nat with true by reflexivity.
    rewrite Hm. cbn.
    do 2 eexists. split; [reflexivity|]. cbn. repeat split. exact Hf.
Qed.

Lemma render_loading (s : State) :
  loading s = true -> render parse s = ([], Normal (Spinner "Loading...")).
Proof. intros H. unfold render. rewrite H. reflexivity. Qed.

Lemma render_error (s : State) :
  loading s = false -> truthy (error s) = true ->
  render parse s = ([], Normal (ErrorText (error s))).
Proof. intros Hl He. unfold render. rewrite Hl, He. reflexivity. Qed.



End RenderFacts.

(* ------------------------------------------------------------------ *)
(** ** The reference ordering sorts, and loses no row *)

Module StoreFacts.
Import Store.

Lemma before_total asc a b : before asc a b = false -> before asc b a = true.
Proof. unfold before. destruct asc; intros H; lia. Qed.

Lemma before_trans asc a b c :
  before asc a b = true -> before asc b c = true -> before asc a c = true.
Proof. unfold before. destruct asc; intros H1 H2; lia. Qed.

Lemma insert_perm asc x l : Permutation (insert asc x l) (x :: l).
Proof.
  induction l as [|y ys IH]; cbn.
  - reflexivity.
  - destruct (before asc x y).
    + reflexivity.
    + rewrite IH. apply perm_swap.
Qed.

Lemma order_perm asc l : Permutation (order asc l) l.
Proof.
  induction l as [|x xs IH]; cbn.
  - constructor.
  - rewrite insert_perm. now constructor.
Qed.

Lemma insert_hd asc x y l :
  In_order asc y x -> HdRel (In_order asc) y l ->
  HdRel (In_order asc) y (insert asc x l).
Proof.
  intros Hyx Hl. destruct l as [|z zs]; cbn.
  - now constructor.
  - destruct (before asc x z); constructor; trivial.
    now inversion Hl.
Qed.

Lemma insert_sorted asc x l :
  Sorted (In_order asc) l -> Sorted (In_order asc) (insert asc x l).
Proof.
  induction 1 as [|y ys Hs IH Hhd]; cbn.
  - repeat constructor.
  - destruct (before asc x y) eqn:Hxy.
    + constructor; [constructor; assumption | now constructor].
    + constructor; [assumption|].
      apply insert_hd; [now apply before_total | assumption].
Qed.

Lemma order_sorted asc l : Sorted (In_order asc) (order asc l).
Proof.
  induction l as [|x xs IH]; cbn.
  - constructor.
  - now apply insert_sorted.
Qed.

Lemma sorted_oldest_first l : Sorted (In_order true) l -> Oldest_first l.
Proof.
  intros Hs. unfold Oldest_first.
  assert (H : StronglySorted (In_order true) l).
  { apply Sorted_StronglySorted; [|exact Hs].
    intros a b c. apply before_trans. }
  induction H as [|a l' _ IH Hall]; constructor.
  - apply IH. now inversion Hs.
  - eapply Forall_impl; [|exact Hall].
    intros c Hc. unfold In_order, before in Hc. lia.
Qed.

(** The reference service answers the link query from its table. *)
Lemma backend_answers (st : Store.t) (id : Z) (ascending : bool) :
  answers_from (links st) id ascending
               (links_ordered (backend st) id ascending).
Proof.
  exists (order ascending (of_page id (links st))).
  split; [reflexivity|]. split; [apply order_perm | apply order_sorted].
Qed.

End StoreFacts.

(* ------------------------------------------------------------------ *)
(** ** The state a load leaves behind *)

Section FinalStates.

Variable b : Backend.
Variable slug : string.

Lemma reduce_not_found (s0 : State) (e : PostgrestError.t) :
  pages_single b slug = Failure e ->
  PostgrestError.code e = "PGRST116" ->
  reduce s0 (load b slug) =
    mkState (page s0) (links s0) false (error s0) (user s0) (avatarUrl s0).
Proof.
  intros Hp Hc. unfold load. rewrite (fetch_not_found b slug e Hp Hc).
  reflexivity.
Qed.

Lemma reduce_page_error (s0 : State) (e : PostgrestError.t) :
  pages_single b slug = Failure e ->
  PostgrestError.code e <> "PGRST116" ->
  reduce s0 (load b slug) =
    mkState (page s0) (links s0) false (Some generic_error) (user s0)
            (avatarUrl s0).
Proof.
  intros Hp Hc. unfold load. rewrite (fetch_page_error b slug e Hp Hc).
  reflexivity.
Qed.

Lemma reduce_links_error (s0 : State) (p : Page.t) (e : PostgrestError.t) :
  pages_single b slug = Success p ->
  links_ordered b (Page.id p) true = Failure e ->
  reduce s0 (load b slug) =
    mkState (Some p) (links s0) false (Some generic_error) (user s0)
            (avatar_after (avatarUrl s0) (images_single b (Page.user_id p))).
Proof.
  intros Hp Hl. unfold load. rewrite (fetch_links_error b slug p e Hp Hl).
  destruct (images_single b (Page.user_id p)); reflexivity.
Qed.

Lemma reduce_ok (s0 : State) (p : Page.t) (ls : list Link.t) :
  pages_single b slug = Success p ->
  links_ordered b (Page.id p) true = Success ls ->
  reduce s0 (load b slug) =
    mkState (Some p) ls false (error s0) (auth_user b)
            (avatar_after (avatarUrl s0) (images_single b (Page.user_id p))).
Proof.
  intros Hp Hl. unfold load. rewrite (fetch_ok b slug p ls Hp Hl).
  destruct (images_single b (Page.user_id p)); reflexivity.
Qed.

End FinalStates.

(* ------------------------------------------------------------------ *)
(** ** No page for the slug *)

(** X12. When the page lookup of a load fails with code PGRST116, the load
    consists of the page request, the navigation to "/404" and the end of
    loading, in this order: no avatar, link or identity request is issued,
    nothing is logged and no error is set. A freshly mounted component
    then shows the not-found placeholder: neither the error text nor a page
    card. *)
Theorem not_found_redirects_silently
    (b : Backend) (parse : string -> option Url.t)
    (slug : string) (e : PostgrestError.t) :
  pages_single b slug = Failure e ->
  PostgrestError.code e = "PGRST116" ->
  load b slug =
    [SetLoading true;
     Issue (PagesBySlug slug); Settle (PagesBySlug slug);
     Navigate "/404";
     SetLoading false]
  /\ (forall r, In (Issue r) (load b slug) -> r = PagesBySlug slug)
  /\ (forall v, ~ In (SetError v) (load b slug))
  /\ error (loaded_state b slug) = None
  /\ render parse (loaded_state b slug) = ([], Normal NotFoundText).
Proof.
  intros Hp Hc.
  assert (Ht : load b slug =
    [SetLoading true; Issue (PagesBySlug slug); Settle (PagesBySlug slug);
     Navigate "/404"; SetLoading false]).
  { unfold load. now rewrite (fetch_not_found b slug e Hp Hc). }
  split; [exact Ht|].
  unfold loaded_state. rewrite Ht. cbn.
  repeat split.
  - intros r [H|[H|[H|[H|[H|[]]]]]]; congruence.
  - intros v [H|[H|[H|[H|[H|[]]]]]]; discriminate.
Qed.

Lemma not_found_redirects_silently_witness :
  pages_single Sample.service "nobody" = Failure Store.no_rows /\
  render MiniUrl.parse (loaded_state Sample.service "nobody")
  = ([], Normal NotFoundText).
Proof.
  split; [reflexivity|].
  apply (not_found_redirects_silently
           Sample.service MiniUrl.parse "nobody" Store.no_rows);
    reflexivity.
Defined.

(* ------------------------------------------------------------------ *)
(** ** The link lookup fails *)

(** C2. When the page lookup succeeds and the link lookup fails, the load
    sets the error to "Failed to load page. Please try again.", issues no
    identity request, sets neither the links nor the viewer, and does not
    navigate; whatever the state before the load, the component then shows
    the error text with that message. *)
Theorem links_failure_shows_generic_error
    (b : Backend) (parse : string -> option Url.t)
    (slug : string) (p : Page.t) (e : PostgrestError.t) (s0 : State) :
  pages_single b slug = Success p ->
  links_ordered b (Page.id p) true = Failure e ->
  In (SetError (Some "Failed to load page. Please try again.")) (load b slug)
  /\ ~ In (Issue AuthGetUser) (load b slug)
  /\ (forall v, ~ In (SetLinks v) (load b slug))
  /\ (forall v, ~ In (SetUser v) (load b slug))
  /\ (forall path, ~ In (Navigate path) (load b slug))
  /\ render parse (reduce s0 (load b slug))
     = ([], Normal (ErrorText (Some "Failed to load page. Please try again."))).
Proof.
  intros Hp Hl.
  split; [|split; [|split; [|split; [|split]]]].
  1-5: unfold load; rewrite (fetch_links_error b slug p e Hp Hl); cbn;
       destruct (images_single b (Page.user_id p)); cbn.
  1-2: tauto.
  all: try (intuition discriminate).
  rewrite (reduce_links_error b slug s0 p e Hp Hl). reflexivity.
Qed.

Lemma links_failure_shows_generic_error_witness :
  pages_single Sample.flaky "alice" = Success Sample.alice_page /\
  render MiniUrl.parse (loaded_state Sample.flaky "alice")
  = ([], Normal (ErrorText (Some generic_error))).
Proof.
  split; [reflexivity|].
  apply (links_failure_shows_generic_error
           Sample.flaky
           MiniUrl.parse "alice" Sample.alice_page Sample.timeout mount_state);
    reflexivity.
Defined.

(* ------------------------------------------------------------------ *)
(** ** Who may edit *)

Lemma owner_check_spec (s : State) (p : Page.t) :
  owner_check (user s) p = true <-> is_owner s p.
Proof.
  unfold owner_check, is_owner. destruct (user s) as [u|].
  - rewrite String.eqb_eq. split.
    + intros H. now exists u.
    + intros (u' & Hu & Hid). now inversion Hu; subst.
  - split; [discriminate | intros (u & Hu & _); discriminate].
Qed.

(** C3. In every state that shows a page card, the edit link (to
    "/<slug>/edit") is rendered exactly when the viewer is the owner, and a
    click on the avatar navigates (to "/profile") exactly when the viewer
    is the owner; otherwise there is no edit link and the click does
    nothing. The pointer cursor on the avatar follows the same test. *)
Theorem edit_affordances_iff_owner
    (parse : string -> option Url.t) (s : State) (p : Page.t) :
  loading s = false ->
  truthy (error s) = false ->
  page s = Some p ->
  exists log c,
    render parse s = (log, Normal (PageCard c))
    /\ (edit_to c <> None <-> is_owner s p)
    /\ (is_owner s p -> edit_to c = Some ("/" ++ Page.slug p ++ "/edit")%string)
    /\ ((exists path, In (Navigate path) (trace (handleAvatarClick s)))
        <-> is_owner s p)
    /\ (is_owner s p ->
        handleAvatarClick s = ([Navigate "/profile"], Normal tt))
    /\ (~ is_owner s p ->
        edit_to c = None /\ handleAvatarClick s = ([], Normal tt))
    /\ (cursor c = "pointer" <-> is_owner s p).
Proof.
  intros Hl He Hp.
  destruct (render_loaded parse s p Hl He Hp)
    as (log & c & Hr & Hcur & _ & _ & Hed & _).
  exists log, c. split; [exact Hr|].
  assert (Hclick : handleAvatarClick s =
            if owner_check (user s) p
            then ([Navigate "/profile"], Normal tt) else ([], Normal tt)).
  { unfold handleAvatarClick, owner_check. rewrite Hp.
    destruct (user s) as [u|]; [|reflexivity].
    destruct (String.eqb (User.id u) (Page.user_id p)); reflexivity. }
  rewrite Hed, Hcur, Hclick. pose proof (owner_check_spec s p) as Ho.
  destruct (owner_check (user s) p); cbn.
  - assert (is_owner s p) by now apply Ho.
    repeat split; trivial; try discriminate; try tauto.
    intros _. exists "/profile". now left.
  - assert (~ is_owner s p) by (intros H; apply Ho in H; discriminate).
    repeat split; trivial; try tauto; try discriminate.
    intros (path & []).
Qed.

Lemma edit_affordances_iff_owner_witness :
  exists log c,
    render MiniUrl.parse (loaded_state Sample.service "alice")
    = (log, Normal (PageCard c))
    /\ edit_to c = Some "/alice/edit"
    /\ handleAvatarClick (loaded_state Sample.service "alice")
       = ([Navigate "/profile"], Normal tt).
Proof.
  destruct (edit_affordances_iff_owner MiniUrl.parse
              (loaded_state Sample.service "alice") Sample.alice_page)
    as (log & c & Hr & _ & Hedit & _ & Hclick & _); try reflexivity.
  assert (Ho : is_owner (loaded_state Sample.service "alice") Sample.alice_page)
    by (exists Sample.alice; split; reflexivity).
  exists log, c. split; [exact Hr|]. split; [exact (Hedit Ho) | exact (Hclick Ho)].
Defined.

(** Another viewer gets neither the edit link nor the navigation. *)
Example visitor_cannot_edit :
  let s := reduce (loaded_state Sample.service "alice")
                  [SetUser (Some Sample.bob)] in
  option_map (fun v => match v with PageCard c => edit_to c | _ => None end)
             (shown MiniUrl.parse s) = Some None
  /\ handleAvatarClick s = ([], Normal tt).
Proof. split; reflexivity. Qed.

(* ------------------------------------------------------------------ *)
(** ** The list of links *)

(** X13. Let the page lookup succeed with page [p], and let the service
    answer the link query of [p] with the stored rows [rows] that reference
    [p], in the order the query asks for. Then a freshly mounted component ends up showing
    a page card whose anchors are, one for one and in order, the rows of
    [rows] that reference [p], oldest first: as many anchors as such rows,
    each with the row's url as target address and opened in a new browsing
    context ("_blank"). *)
Theorem links_rendered_oldest_first
    (b : Backend) (parse : string -> option Url.t)
    (slug : string) (p : Page.t) (rows : list Link.t) :
  pages_single b slug = Success p ->
  (forall ascending,
      Store.answers_from rows (Page.id p) ascending
                         (links_ordered b (Page.id p) ascending)) ->
  exists log c ls,
    render parse (loaded_state b slug) = (log, Normal (PageCard c))
    /\ List.length (anchors c) = List.length (Store.of_page (Page.id p) rows)
    /\ Forall2 shows ls (anchors c)
    /\ Permutation ls (Store.of_page (Page.id p) rows)
    /\ Store.Oldest_first ls
    /\ Forall (fun a => target a = "_blank") (anchors c).
Proof.
  intros Hp Hl.
  destruct (Hl true) as (ls & Hls & Hperm & Hsorted).
  pose proof (reduce_ok b slug mount_state p ls Hp Hls) as Hs.
  fold (loaded_state b slug) in Hs.
  destruct (render_loaded parse (loaded_state b slug) p)
    as (log & c & Hr & _ & _ & _ & _ & Hf); try (rewrite Hs; reflexivity).
  rewrite Hs in Hf. cbn in Hf.
  exists log, c, ls. split; [exact Hr|].
  split; [|split; [exact Hf|split; [exact Hperm|split]]].
  - rewrite <- (Forall2_length Hf). now apply Permutation_length.
  - now apply StoreFacts.sorted_oldest_first.
  - clear - Hf. induction Hf as [|l a ls' as' Hs _ IH]; constructor; trivial.
    apply Hs.
Qed.

Lemma links_rendered_oldest_first_witness :
  exists log c,
    render MiniUrl.parse (loaded_state Sample.service "alice")
    = (log, Normal (PageCard c))
    /\ map href (anchors c)
       = ["https://shop.example.org"; "not a url";
          "https://blog.example.org/posts"].
Proof.
  destruct (links_rendered_oldest_first Sample.service MiniUrl.parse "alice"
              Sample.alice_page (Store.links Sample.store))
    as (log & c & ls & Hr & _);
    [reflexivity | intros asc; apply StoreFacts.backend_answers |].
  exists log, c. split; [exact Hr|].
  cbv in Hr. inversion Hr. reflexivity.
Defined.

(* ------------------------------------------------------------------ *)
(** ** The avatar lookup fails *)

(** A load in which the avatar lookup finds no row and the link lookup
    then fails ends on the error text, not on a card with the fallback
    glyph. *)
Lemma avatar_failure_then_links_failure :
  pages_single Sample.flaky "alice" = Success Sample.alice_page /\
  images_single Sample.flaky (Page.user_id Sample.alice_page)
  = Failure Store.no_rows /\
  shown MiniUrl.parse (loaded_state Sample.flaky "alice")
  = Some (ErrorText (Some generic_error)).
Proof. repeat split. Qed.

(** C5 (amended). When the page lookup succeeds and the avatar lookup
    fails or finds no row, the failure is logged with console.error and the
    load goes on with the link request; the error state is set only if the
    link lookup fails in its turn. If the link lookup succeeds, the freshly
    mounted component shows the page card, with an avatar that has no image
    and falls back to the first element of the page's title. *)
Theorem avatar_failure_is_not_fatal
    (b : Backend) (parse : string -> option Url.t)
    (slug : string) (p : Page.t) (e : PostgrestError.t) :
  pages_single b slug = Success p ->
  images_single b (Page.user_id p) = Failure e ->
  (exists rest,
      load b slug =
        [SetLoading true;
         Issue (PagesBySlug slug); Settle (PagesBySlug slug);
         SetPage (Some p);
         Issue (ImagesByUser (Page.user_id p));
         Settle (ImagesByUser (Page.user_id p));
         ConsoleError "Error fetching avatar:" (PExn (PgError e));
         Issue (LinksByPage (Page.id p) true);
         Settle (LinksByPage (Page.id p) true)] ++ rest)
  /\ ((exists v, In (SetError v) (load b slug)) ->
      exists e', links_ordered b (Page.id p) true = Failure e')
  /\ (forall ls,
         links_ordered b (Page.id p) true = Success ls ->
         exists log c,
           render parse (loaded_state b slug) = (log, Normal (PageCard c))
           /\ avatar c = {| avatar_src := None;
                            avatar_fallback := char0 (Page.title p) |}).
Proof.
  intros Hp Ha.
  destruct (links_ordered b (Page.id p) true) as [ls|e'] eqn:Hl.
  - pose proof (fetch_ok b slug p ls Hp Hl) as Hf. rewrite Ha in Hf.
    unfold avatar_event in Hf. unfold load. rewrite Hf. cbn.
    split; [eexists; reflexivity|]. split.
    + intros (v & Hin). exfalso.
      repeat (destruct Hin as [Hin|Hin]; [discriminate|]). exact Hin.
    + intros ls' Hls. inversion Hls; subst ls'.
      pose proof (reduce_ok b slug mount_state p ls Hp Hl) as Hs.
      rewrite Ha in Hs. unfold avatar_after in Hs.
      fold (loaded_state b slug) in Hs.
      destruct (render_loaded parse (loaded_state b slug) p)
        as (log & c & Hr & _ & Hav & _); try (rewrite Hs; reflexivity).
      exists log, c. split; [exact Hr|]. rewrite Hav, Hs. reflexivity.
  - pose proof (fetch_links_error b slug p e' Hp Hl) as Hf.
    rewrite Ha in Hf. unfold avatar_event in Hf. unfold load. rewrite Hf. cbn.
    split; [eexists; reflexivity|]. split.
    + intros _. now exists e'.
    + intros ls Hls. discriminate.
Qed.

Lemma avatar_failure_is_not_fatal_witness :
  images_single Sample.service (Page.user_id Sample.alice_page)
  = Failure Store.no_rows /\
  exists log c,
    render MiniUrl.parse (loaded_state Sample.service "alice")
    = (log, Normal (PageCard c))
    /\ avatar c = {| avatar_src := None; avatar_fallback := Some "A"%char |}.
Proof.
  split; [reflexivity|].
  destruct (avatar_failure_is_not_fatal Sample.service MiniUrl.parse "alice"
              Sample.alice_page Store.no_rows) as (_ & _ & H);
    [reflexivity | reflexivity |].
  exact (H _ eq_refl).
Defined.

(* ------------------------------------------------------------------ *)
(** ** The favicon helper *)

(** On a malformed address the helper writes to the console. *)
Lemma favicon_helper_logs_malformed :
  MiniUrl.parse "not a url" = None /\
  trace (getFaviconUrl MiniUrl.parse "not a url")
  = [ConsoleError "Invalid URL:" (PStr "not a url")] /\
  trace (getFaviconUrl MiniUrl.parse "not a url") <> [].
Proof. repeat split. discriminate. Qed.

(** C6 (amended). The favicon helper always returns and never throws. Its
    result is determined by the address alone: for an address the URL
    parser accepts, the favicon-service address built from the parsed host
    name, with nothing logged; for an address the parser rejects, null,
    after one console.error entry that names the address. *)
Theorem favicon_helper_total
    (parse : string -> option Url.t) (url : string) :
  (forall u,
      parse url = Some u ->
      getFaviconUrl parse url =
        ([], Normal (Some ("https://www.google.com/s2/favicons?domain="
                           ++ Url.hostname u ++ "&sz=64")%string)))
  /\ (parse url = None ->
      getFaviconUrl parse url =
        ([ConsoleError "Invalid URL:" (PStr url)], Normal None))
  /\ (forall e, completion (getFaviconUrl parse url) <> Thrown e)
  /\ (exists v, value (getFaviconUrl parse url) = Some v).
Proof.
  rewrite getFaviconUrl_cases. destruct (parse url) as [u|].
  - repeat split; try discriminate.
    + intros u' Hu. now inversion Hu.
    + eexists; reflexivity.
  - repeat split; try discriminate.
    eexists; reflexivity.
Qed.

Lemma favicon_helper_total_witness :
  getFaviconUrl MiniUrl.parse "https://blog.example.org/posts"
  = ([], Normal (Some "https://www.google.com/s2/favicons?domain=blog.example.org&sz=64"))
  /\ getFaviconUrl MiniUrl.parse "not a url"
     = ([ConsoleError "Invalid URL:" (PStr "not a url")], Normal None).
Proof.
  split.
  - exact (proj1 (favicon_helper_total MiniUrl.parse
                    "https://blog.example.org/posts")
                 (Url.mk "blog.example.org") eq_refl).
  - exact (proj1 (proj2 (favicon_helper_total MiniUrl.parse "not a url"))
                 eq_refl).
Defined.

(* ------------------------------------------------------------------ *)
(** ** What is shown while and after a load *)


Lemma Forall_prefix {A} (P : A -> Prop) (k : nat) (l : list A) :
  Forall P l -> Forall P (firstn k l).
Proof.
  revert k. induction l as [|x l IH]; intros [|k] H; cbn; trivial.
  inversion H; subst. constructor; auto.
Qed.

Ltac no_set_loading :=
  repeat constructor; intros v; discriminate.

(** A load sets [loading] when it starts and clears it as its last act,
    and at no other moment. *)
Lemma load_brackets (b : Backend) (slug : string) :
  exists mid,
    load b slug = SetLoading true :: mid ++ [SetLoading false] /\
    Forall keeps_loading mid.
Proof.
  unfold load.
  destruct (outcome_cases b slug)
    as [(e & Hp & Hc)|[(e & Hp & Hc)|[(p & e & Hp & Hl)|(p & ls & Hp & Hl)]]].
  - rewrite (fetch_not_found b slug e Hp Hc).
    exists [Issue (PagesBySlug slug); Settle (PagesBySlug slug); Navigate "/404"].
    split; [reflexivity | no_set_loading].
  - rewrite (fetch_page_error b slug e Hp Hc).
    eexists [_; _; _; _]. split; [reflexivity | no_set_loading].
  - rewrite (fetch_links_error b slug p e Hp Hl).
    eexists [_; _; _; _; _; _; _; _; _; _]. split; [reflexivity|].
    destruct (images_single b (Page.user_id p)); no_set_loading.
  - rewrite (fetch_ok b slug p ls Hp Hl).
    eexists [_; _; _; _; _; _; _; _; _; _; _; _]. split; [reflexivity|].
    destruct (images_single b (Page.user_id p)); no_set_loading.
Qed.



(** Each of the three ends is reached by some load. *)
Example load_ends_not_found :
  shown_ui MiniUrl.parse (loaded_state Sample.service "nobody") = Some NotFound.
Proof. reflexivity. Qed.

Example load_ends_errored :
  shown_ui MiniUrl.parse
           (loaded_state (with_page_failure Sample.service Sample.timeout) "alice")
  = Some Errored.
Proof. reflexivity. Qed.

Example load_ends_loaded :
  shown_ui MiniUrl.parse (loaded_state Sample.service "alice") = Some Loaded.
Proof. reflexivity. Qed.

(* ------------------------------------------------------------------ *)
(** ** The order of the network reads *)

Lemma Sequential_in_flight (t : list Event) :
  Sequential t ->
  forall k n, in_flight_from n (firstn k t) = n \/
              in_flight_from n (firstn k t) = S n.
Proof.
  induction 1 as [|r t _ IH|e t Hn _ IH]; intros k n.
  - rewrite firstn_nil. now left.
  - destruct k as [|[|k]]; cbn; [now left | now right | apply IH].
  - destruct k as [|k]; cbn; [now left|].
    replace (flight_step n e) with n; [apply IH|].
    destruct e; cbn in *; tauto.
Qed.

Lemma Sequential_settles (t : list Event) :
  Sequential t ->
  forall pre r post, t = pre ++ Issue r :: post ->
                     exists post', post = Settle r :: post'.
Proof.
  induction 1 as [|r t _ IH|e t Hn _ IH]; intros pre r' post Heq.
  - now destruct pre.
  - destruct pre as [|e1 [|e2 pre]]; cbn in Heq.
    + inversion Heq; subst. eauto.
    + inversion Heq.
    + inversion Heq; subst. eapply IH. reflexivity.
  - destruct pre as [|e1 pre]; cbn in Heq.
    + inversion Heq; subst. cbn in Hn. tauto.
    + inversion Heq; subst. eapply IH. reflexivity.
Qed.

Ltac sequential :=
  repeat first
    [ apply Sequential_nil
    | apply Sequential_read
    | apply Sequential_other; [cbn; tauto|] ].

Lemma load_sequential (b : Backend) (slug : string) :
  Sequential (load b slug).
Proof.
  unfold load.
  destruct (outcome_cases b slug)
    as [(e & Hp & Hc)|[(e & Hp & Hc)|[(p & e & Hp & Hl)|(p & ls & Hp & Hl)]]].
  - rewrite (fetch_not_found b slug e Hp Hc). cbn. sequential.
  - rewrite (fetch_page_error b slug e Hp Hc). cbn. sequential.
  - rewrite (fetch_links_error b slug p e Hp Hl). cbn.
    destruct (images_single b (Page.user_id p)); cbn; sequential.
  - rewrite (fetch_ok b slug p ls Hp Hl). cbn.
    destruct (images_single b (Page.user_id p)); cbn; sequential.
Qed.

(** C8. The requests of a load leave in the order page by slug, avatar by
    user id, links by page id (oldest first), viewer identity: a load that
    stops early issues a beginning of this sequence, a load in which page
    and link lookup succeed issues all four. The avatar request carries the
    user id of the page row that the page lookup returned, the link request
    its id. Each request resolves before any other event of the load, so at
    no moment is more than one request under way. *)
Theorem reads_are_sequential (b : Backend) (slug : string) :
  ((exists e, pages_single b slug = Failure e /\
              requests (load b slug) = [PagesBySlug slug])
   \/ (exists p e, pages_single b slug = Success p /\
                   links_ordered b (Page.id p) true = Failure e /\
                   requests (load b slug) =
                     [PagesBySlug slug;
                      ImagesByUser (Page.user_id p);
                      LinksByPage (Page.id p) true])
   \/ (exists p ls, pages_single b slug = Success p /\
                    links_ordered b (Page.id p) true = Success ls /\
                    requests (load b slug) =
                      [PagesBySlug slug;
                       ImagesByUser (Page.user_id p);
                       LinksByPage (Page.id p) true;
                       AuthGetUser]))
  /\ (forall pre r post,
         load b slug = pre ++ Issue r :: post ->
         exists post', post = Settle r :: post')
  /\ (forall k, in_flight (firstn k (load b slug)) <= 1).
Proof.
  split; [|split].
  - unfold load.
    destruct (outcome_cases b slug)
      as [(e & Hp & Hc)|[(e & Hp & Hc)|[(p & e & Hp & Hl)|(p & ls & Hp & Hl)]]].
    + left. exists e. split; [exact Hp|].
      now rewrite (fetch_not_found b slug e Hp Hc).
    + left. exists e. split; [exact Hp|].
      now rewrite (fetch_page_error b slug e Hp Hc).
    + right; left. exists p, e. repeat split; trivial.
      rewrite (fetch_links_error b slug p e Hp Hl).
      destruct (images_single b (Page.user_id p)); reflexivity.
    + right; right. exists p, ls. repeat split; trivial.
      rewrite (fetch_ok b slug p ls Hp Hl).
      destruct (images_single b (Page.user_id p)); reflexivity.
  - apply Sequential_settles, load_sequential.
  - intros k. unfold in_flight.
    destruct (Sequential_in_flight _ (load_sequential b slug) k 0) as [H|H];
      rewrite H; lia.
Qed.

(* ------------------------------------------------------------------ *)
(** ** A failed load and the page it had already stored *)

Lemma reduce_unset_or_generic (t : list Event) (s : State) :
  Forall sets_generic t -> unset_or_generic s -> unset_or_generic (reduce s t).
Proof.
  revert s. induction t as [|e t IH]; intros s Hall Hs; [exact Hs|].
  inversion Hall as [|? ? He Ht]; subst.
  change (reduce s (e :: t)) with (reduce (apply s e) t).
  apply IH; [assumption|].
  destruct e; try exact Hs. right. cbn. apply He. reflexivity.
Qed.

Ltac only_generic :=
  repeat constructor; intros v Hv; inversion Hv; reflexivity.

Lemma load_sets_generic (b : Backend) (slug : string) :
  Forall sets_generic (load b slug).
Proof.
  unfold load.
  destruct (outcome_cases b slug)
    as [(e & Hp & Hc)|[(e & Hp & Hc)|[(p & e & Hp & Hl)|(p & ls & Hp & Hl)]]].
  - rewrite (fetch_not_found b slug e Hp Hc). only_generic.
  - rewrite (fetch_page_error b slug e Hp Hc). only_generic.
  - rewrite (fetch_links_error b slug p e Hp Hl).
    destruct (images_single b (Page.user_id p)); only_generic.
  - rewrite (fetch_ok b slug p ls Hp Hl).
    destruct (images_single b (Page.user_id p)); only_generic.
Qed.

Lemma loading_after_load (b : Backend) (slug : string) (s0 : State) :
  loading (reduce s0 (load b slug)) = false.
Proof.
  destruct (load_brackets b slug) as (mid & Ht & _). rewrite Ht.
  unfold reduce. rewrite app_comm_cons, fold_left_app. reflexivity.
Qed.

(** In the load whose link lookup times out, there is a moment (after
    [setError], before [setLoading(false)]) at which the error is set and
    the component shows the spinner, not the error text. The same holds
    when the effect runs again on the component that load left behind: the
    error is still set and the spinner is shown. *)
Lemma error_set_under_spinner :
  error (frame mount_state (load Sample.flaky "alice") 11)
  = Some generic_error /\
  page (frame mount_state (load Sample.flaky "alice") 11)
  = Some Sample.alice_page /\
  render MiniUrl.parse (frame mount_state (load Sample.flaky "alice") 11)
  = ([], Normal (Spinner "Loading...")) /\
  error (frame (loaded_state Sample.flaky "alice") (load Sample.service "alice") 1)
  = Some generic_error /\
  render MiniUrl.parse
         (frame (loaded_state Sample.flaky "alice") (load Sample.service "alice") 1)
  = ([], Normal (Spinner "Loading...")).
Proof. repeat split. Qed.

(** C9 (amended). The load is not atomic on failure: when the link lookup
    fails after a successful page lookup, the state ends with the page
    stored and the error set. The render tests [loading], then [error],
    then [page]: at every moment of a load of a freshly mounted component
    at which the error is set, the component shows the spinner while
    [loading] is set and the error text once it is cleared, and after the
    load the error text; page content is never shown while the error is
    set. *)
Theorem error_hides_page_content
    (b : Backend) (parse : string -> option Url.t) (slug : string) :
  (forall p e,
      pages_single b slug = Success p ->
      links_ordered b (Page.id p) true = Failure e ->
      page (loaded_state b slug) = Some p /\
      error (loaded_state b slug) = Some generic_error)
  /\ (forall k,
         error (frame mount_state (load b slug) k) <> None ->
         render parse (frame mount_state (load b slug) k)
         = ([], Normal (if loading (frame mount_state (load b slug) k)
                        then Spinner "Loading..."
                        else ErrorText (Some generic_error))))
  /\ (error (loaded_state b slug) <> None ->
      render parse (loaded_state b slug)
      = ([], Normal (ErrorText (Some generic_error))))
  /\ (forall s c, truthy (error s) = true -> shown parse s <> Some (PageCard c)).
Proof.
  assert (Hframes : forall k,
             unset_or_generic (frame mount_state (load b slug) k)).
  { intros k. apply reduce_unset_or_generic; [|now left].
    apply Forall_prefix, load_sets_generic. }
  split; [|split; [|split]].
  - intros p e Hp Hl. unfold loaded_state.
    rewrite (reduce_links_error b slug mount_state p e Hp Hl). now split.
  - intros k Hk. destruct (Hframes k) as [H|H]; [contradiction|].
    destruct (loading (frame mount_state (load b slug) k)) eqn:Hl.
    + now apply render_loading.
    + rewrite <- H. apply render_error; [assumption|]. now rewrite H.
  - intros He.
    assert (H : unset_or_generic (loaded_state b slug)).
    { apply reduce_unset_or_generic; [apply load_sets_generic | now left]. }
    destruct H as [H|H]; [contradiction|].
    rewrite <- H. apply render_error; [apply loading_after_load|].
    now rewrite H.
  - intros s c He. unfold shown, value, completion.
    destruct (loading s) eqn:Hl.
    + rewrite render_loading by assumption. discriminate.
    + rewrite render_error by assumption. discriminate.
Qed.

(* ------------------------------------------------------------------ *)
(** ** The fallback of a link image *)

Module DomFacts.
Import Dom.

(** The handler clears the [onerror] property first and assigns the
    default asset second. *)
Lemma onError_order :
  onError FallbackHandler = [SetOnerror None; SetSrc default_asset].
Proof. reflexivity. Qed.

Section Unavailable.

Variable available : string -> bool.
Hypothesis default_fails : available default_asset = false.

Lemma substituted_refires (n : nat) :
  settle available n substituted = (n, substituted).
Proof.
  induction n as [|n IH]; [reflexivity|].
  cbn. rewrite default_fails. cbn.
  change (fold_left write (onError FallbackHandler) substituted)
    with substituted.
  fold substituted. rewrite IH. reflexivity.
Qed.

Lemma react_refires (u : string) (n : nat) :
  available u = false ->
  firings available n (mount_react (Some u)) = n.
Proof.
  intros Hu. destruct n as [|n]; [reflexivity|].
  unfold firings. cbn. rewrite Hu. cbn.
  change (fold_left write (onError FallbackHandler) (mount_react (Some u)))
    with substituted.
  fold substituted. rewrite substituted_refires. reflexivity.
Qed.

End Unavailable.

(** Set as the element's [onerror] property, the same handler runs at
    most once, whatever loads and whatever fails. *)
Lemma property_fires_once (available : string -> bool)
    (s : option string) (n : nat) :
  firings available n (mount_property s) <= 1.
Proof.
  unfold firings. destruct n as [|n]; [cbn; lia|].
  cbn. destruct (fails available (mount_property s)); [|cbn; lia].
  cbn. destruct n as [|n]; [cbn; lia|].
  cbn. destruct (negb (available default_asset)); cbn; lia.
Qed.

(** C10 (evaluation of the code). For the image of a rendered anchor
    whose source fails to load, when the default asset fails to load as
    well: over [n] load attempts the handler runs [n] times. It is
    attached as a listener, which the assignment to the [onerror]
    property does not remove, so every failure of the default asset
    fires it again and it assigns the default asset again. *)
Theorem fallback_refires_under_react
    (available : string -> bool) (a : Anchor) (u : string) (n : nat) :
  img_src a = Some u ->
  available u = false ->
  available default_asset = false ->
  firings available n (link_image a) = n.
Proof.
  intros Ha Hu Hd. unfold link_image. rewrite Ha.
  now apply react_refires.
Qed.

Lemma fallback_refires_under_react_witness :
  firings (fun _ => false)
          3 (link_image (mkAnchor 32 "https://shop.example.org" "_blank"
                           "noopener noreferrer"
                           (Some "https://cdn.example.org/shop.png")
                           "Shop" "Shop" (Some "My shop"))) = 3.
Proof.
  apply (fallback_refires_under_react (fun _ => false) _
           "https://cdn.example.org/shop.png" 3); reflexivity.
Defined.

End DomFacts.

(* ------------------------------------------------------------------ *)
(** ** Further properties of the loader *)

(** Closes a goal [~ In e t] over a trace that is written out. *)
Ltac absent :=
  let Hin := fresh "Hin" in
  intros Hin; cbn in Hin;
  repeat (destruct Hin as [Hin|Hin]; [discriminate|]); exact Hin.

(** X1. When the page lookup fails with a code other than PGRST116, the
    load logs the error, sets the generic error string and stops: the page
    request is the only request, there is no navigation, the stored page is
    left as it was, and the component then shows the error text, whatever
    its state before. *)
Theorem page_failure_shows_generic_error
    (b : Backend) (parse : string -> option Url.t)
    (slug : string) (e : PostgrestError.t) (s0 : State) :
  pages_single b slug = Failure e ->
  PostgrestError.code e <> "PGRST116" ->
  load b slug =
    [SetLoading true;
     Issue (PagesBySlug slug); Settle (PagesBySlug slug);
     ConsoleError "Error fetching page:" (PExn (PgError e));
     SetError (Some "Failed to load page. Please try again.");
     SetLoading false]
  /\ requests (load b slug) = [PagesBySlug slug]
  /\ (forall path, ~ In (Navigate path) (load b slug))
  /\ page (reduce s0 (load b slug)) = page s0
  /\ render parse (reduce s0 (load b slug))
     = ([], Normal (ErrorText (Some "Failed to load page. Please try again."))).
Proof.
  intros Hp Hc.
  assert (Ht : load b slug =
    [SetLoading true; Issue (PagesBySlug slug); Settle (PagesBySlug slug);
     ConsoleError "Error fetching page:" (PExn (PgError e));
     SetError (Some generic_error); SetLoading false]).
  { unfold load. now rewrite (fetch_page_error b slug e Hp Hc). }
  split; [exact Ht|]. rewrite Ht.
  split; [reflexivity|]. split; [intros path; absent|].
  split; reflexivity.
Qed.

Lemma page_failure_shows_generic_error_witness :
  pages_single (with_page_failure Sample.service Sample.timeout) "alice"
  = Failure Sample.timeout /\
  render MiniUrl.parse
         (reduce (loaded_state Sample.service "alice")
                 (load (with_page_failure Sample.service Sample.timeout) "alice"))
  = ([], Normal (ErrorText (Some generic_error))).
Proof.
  split; [reflexivity|].
  apply (page_failure_shows_generic_error
           (with_page_failure Sample.service Sample.timeout) MiniUrl.parse
           "alice" Sample.timeout (loaded_state Sample.service "alice"));
    [reflexivity | discriminate].
Defined.

(** X2. When page, avatar and link lookup all succeed, the load stores the
    [image_url] of the avatar row and logs nothing; on a component without
    error the card then shows that image as avatar source, replacing
    whatever source was stored before, with the first element of the title
    as fallback. *)
Theorem avatar_success_sets_source
    (b : Backend) (parse : string -> option Url.t) (slug : string)
    (p : Page.t) (row : Image.t) (ls : list Link.t) (s0 : State) :
  pages_single b slug = Success p ->
  images_single b (Page.user_id p) = Success row ->
  links_ordered b (Page.id p) true = Success ls ->
  truthy (error s0) = false ->
  In (SetAvatarUrl (Image.image_url row)) (load b slug)
  /\ (forall label payload, ~ In (ConsoleError label payload) (load b slug))
  /\ exists log c,
       render parse (reduce s0 (load b slug)) = (log, Normal (PageCard c))
       /\ avatar c = {| avatar_src := Image.image_url row;
                        avatar_fallback := char0 (Page.title p) |}.
Proof.
  intros Hp Ha Hl He.
  pose proof (fetch_ok b slug p ls Hp Hl) as Hf. rewrite Ha in Hf.
  unfold avatar_event in Hf.
  split; [|split].
  - unfold load. rewrite Hf. cbn. tauto.
  - intros label payload. unfold load. rewrite Hf. absent.
  - pose proof (reduce_ok b slug s0 p ls Hp Hl) as Hs.
    rewrite Ha in Hs. unfold avatar_after in Hs.
    destruct (render_loaded parse (reduce s0 (load b slug)) p)
      as (log & c & Hr & _ & Hav & _).
    1-3: rewrite Hs; cbn; trivial.
    exists log, c. split; [exact Hr|]. rewrite Hav, Hs. reflexivity.
Qed.

Lemma avatar_success_sets_source_witness :
  exists log c,
    render MiniUrl.parse (loaded_state Gallery.service "carol")
    = (log, Normal (PageCard c))
    /\ avatar c = {| avatar_src := Some "https://cdn.example.org/carol.png";
                     avatar_fallback := Some "C"%char |}.
Proof.
  destruct (avatar_success_sets_source Gallery.service MiniUrl.parse "carol"
              Gallery.carol_page
              (Image.mk (Some "https://cdn.example.org/carol.png"))
              [Gallery.blank] mount_state) as (_ & _ & H); try reflexivity.
  exact H.
Defined.

(** X3. A load never ends on a thrown value: [fetchPageAndLinks] completes
    normally, or by its [return] statement, and the latter exactly when the
    page lookup fails with PGRST116. Its last event is [setLoading(false)],
    so whatever the state before and whatever failed, [loading] is cleared
    when the load is over. *)
Theorem load_always_completes (b : Backend) (slug : string) (s0 : State) :
  (completion (fetchPageAndLinks b slug) = Normal tt \/
   completion (fetchPageAndLinks b slug) = Returned)
  /\ (completion (fetchPageAndLinks b slug) = Returned <->
      exists e, pages_single b slug = Failure e /\
                PostgrestError.code e = "PGRST116")
  /\ last (load b slug) (SetLoading true) = SetLoading false
  /\ loading (reduce s0 (load b slug)) = false.
Proof.
  split; [|split; [|split]].
  - destruct (outcome_cases b slug)
      as [(e & Hp & Hc)|[(e & Hp & Hc)|[(p & e & Hp & Hl)|(p & ls & Hp & Hl)]]].
    + right. now rewrite (fetch_not_found b slug e Hp Hc).
    + left. now rewrite (fetch_page_error b slug e Hp Hc).
    + left. now rewrite (fetch_links_error b slug p e Hp Hl).
    + left. now rewrite (fetch_ok b slug p ls Hp Hl).
  - destruct (outcome_cases b slug)
      as [(e & Hp & Hc)|[(e & Hp & Hc)|[(p & e & Hp & Hl)|(p & ls & Hp & Hl)]]].
    + rewrite (fetch_not_found b slug e Hp Hc). split; [eauto | reflexivity].
    + rewrite (fetch_page_error b slug e Hp Hc). split; [discriminate|].
      intros (e' & He' & Hc'). congruence.
    + rewrite (fetch_links_error b slug p e Hp Hl). split; [discriminate|].
      intros (e' & He' & _). congruence.
    + rewrite (fetch_ok b slug p ls Hp Hl). split; [discriminate|].
      intros (e' & He' & _). congruence.
  - destruct (load_brackets b slug) as (mid & Ht & _). rewrite Ht.
    rewrite app_comm_cons. apply last_last.
  - apply loading_after_load.
Qed.

(** X4. Exactly one of three things happens in a load: it navigates to
    "/404", or it sets the generic error, or it stores the viewer returned
    by the identity lookup. A load that navigates sets no error and no
    viewer; one that sets the error neither navigates nor stores a viewer;
    one that stores the viewer neither navigates nor sets an error. *)
Theorem load_ends_one_way (b : Backend) (slug : string) :
  (In (Navigate "/404") (load b slug)
   /\ (forall v, ~ In (SetError v) (load b slug))
   /\ (forall v, ~ In (SetUser v) (load b slug)))
  \/ (In (SetError (Some generic_error)) (load b slug)
      /\ (forall path, ~ In (Navigate path) (load b slug))
      /\ (forall v, ~ In (SetUser v) (load b slug)))
  \/ (In (SetUser (auth_user b)) (load b slug)
      /\ (forall path, ~ In (Navigate path) (load b slug))
      /\ (forall v, ~ In (SetError v) (load b slug))).
Proof.
  unfold load.
  destruct (outcome_cases b slug)
    as [(e & Hp & Hc)|[(e & Hp & Hc)|[(p & e & Hp & Hl)|(p & ls & Hp & Hl)]]].
  - left. rewrite (fetch_not_found b slug e Hp Hc).
    split; [cbn; tauto|]. split; intros v; absent.
  - right; left. rewrite (fetch_page_error b slug e Hp Hc).
    split; [cbn; tauto|]. split; intros v; absent.
  - right; left. rewrite (fetch_links_error b slug p e Hp Hl).
    destruct (images_single b (Page.user_id p));
      (split; [cbn; tauto|]; split; intros v; absent).
  - right; right. rewrite (fetch_ok b slug p ls Hp Hl).
    destruct (images_single b (Page.user_id p));
      (split; [cbn; tauto|]; split; intros v; absent).
Qed.

(* ------------------------------------------------------------------ *)
(** ** What a later run of the effect inherits *)

(** No load clears an error that is set. *)
Lemma error_survives_load (b : Backend) (slug : string) (s0 : State) :
  error s0 = Some generic_error ->
  error (reduce s0 (load b slug)) = Some generic_error.
Proof.
  intros He.
  destruct (outcome_cases b slug)
    as [(e & Hp & Hc)|[(e & Hp & Hc)|[(p & e & Hp & Hl)|(p & ls & Hp & Hl)]]].
  - now rewrite (reduce_not_found b slug s0 e Hp Hc).
  - now rewrite (reduce_page_error b slug s0 e Hp Hc).
  - now rewrite (reduce_links_error b slug s0 p e Hp Hl).
  - now rewrite (reduce_ok b slug s0 p ls Hp Hl).
Qed.

Lemma session_app (visits more : list (Backend * string)) :
  session (visits ++ more) = fold_left revisit more (session visits).
Proof. unfold session. apply fold_left_app. Qed.

Lemma revisits_keep_error (more : list (Backend * string)) (s : State) :
  error s = Some generic_error /\ loading s = false ->
  error (fold_left revisit more s) = Some generic_error /\
  loading (fold_left revisit more s) = false.
Proof.
  revert s. induction more as [|[b slug] more IH]; intros s [He Hl]; cbn.
  - now split.
  - apply IH. unfold revisit. cbn. split.
    + now apply error_survives_load.
    + apply loading_after_load.
Qed.

Lemma session_loading (visits : list (Backend * string)) :
  visits <> [] -> loading (session visits) = false.
Proof.
  intros Hne. destruct (exists_last Hne) as (init & [b slug] & ->).
  rewrite session_app. cbn. apply loading_after_load.
Qed.

(** X5. The error is never cleared: once a run of the effect has set it,
    every later run on the same component, for whatever slug and whatever
    its lookups return, ends on the error text. *)
Theorem error_is_sticky
    (parse : string -> option Url.t) (visits more : list (Backend * string)) :
  error (session visits) = Some generic_error ->
  render parse (session (visits ++ more))
  = ([], Normal (ErrorText (Some generic_error))).
Proof.
  intros He.
  assert (Hne : visits <> []) by (intros ->; discriminate).
  destruct (revisits_keep_error more (session visits)) as [He' Hl'].
  { split; [exact He | now apply session_loading]. }
  rewrite session_app, <- He'.
  apply render_error; [exact Hl' | now rewrite He'].
Qed.

Lemma error_is_sticky_witness :
  error (session [(Sample.flaky, "alice")]) = Some generic_error /\
  shown_ui MiniUrl.parse (loaded_state Sample.service "alice") = Some Loaded /\
  render MiniUrl.parse (session ([(Sample.flaky, "alice")] ++ [(Sample.service, "alice")]))
  = ([], Normal (ErrorText (Some generic_error))).
Proof.
  split; [reflexivity|]. split; [reflexivity|].
  apply (error_is_sticky MiniUrl.parse [(Sample.flaky, "alice")]
           [(Sample.service, "alice")]).
  reflexivity.
Defined.

(** X6. A load whose page lookup fails with PGRST116 changes nothing but
    [loading]: page, links, viewer, avatar and error stay as they were. On
    a component that was showing something other than the spinner, the
    same view is shown again after the load (a page card of the previous
    slug stays on screen). *)
Theorem unknown_slug_keeps_previous_state
    (b : Backend) (parse : string -> option Url.t)
    (slug : string) (e : PostgrestError.t) (s0 : State) :
  pages_single b slug = Failure e ->
  PostgrestError.code e = "PGRST116" ->
  loading s0 = false ->
  reduce s0 (load b slug) = s0
  /\ render parse (reduce s0 (load b slug)) = render parse s0.
Proof.
  intros Hp Hc Hl.
  assert (H : reduce s0 (load b slug) = s0).
  { rewrite (reduce_not_found b slug s0 e Hp Hc).
    destruct s0; cbn in *. now subst. }
  split; [exact H | now rewrite H].
Qed.

Lemma unknown_slug_keeps_previous_state_witness :
  pages_single Sample.service "nobody" = Failure Store.no_rows /\
  shown_ui MiniUrl.parse
           (reduce (loaded_state Sample.service "alice")
                   (load Sample.service "nobody")) = Some Loaded.
Proof.
  split; [reflexivity|].
  destruct (unknown_slug_keeps_previous_state Sample.service MiniUrl.parse
              "nobody" Store.no_rows (loaded_state Sample.service "alice"))
    as [Hs _]; [reflexivity | reflexivity | reflexivity |].
  rewrite Hs. reflexivity.
Defined.

(** X7. A failed avatar lookup leaves the stored avatar source untouched:
    when page and link lookup succeed and the avatar lookup fails, on a
    component without error the card of the new page is shown with the
    avatar source that was stored before the load. *)
Theorem failed_avatar_keeps_previous
    (b : Backend) (parse : string -> option Url.t) (slug : string)
    (p : Page.t) (e : PostgrestError.t) (ls : list Link.t) (s0 : State) :
  pages_single b slug = Success p ->
  images_single b (Page.user_id p) = Failure e ->
  links_ordered b (Page.id p) true = Success ls ->
  truthy (error s0) = false ->
  (forall v, ~ In (SetAvatarUrl v) (load b slug))
  /\ exists log c,
       render parse (reduce s0 (load b slug)) = (log, Normal (PageCard c))
       /\ heading c = Page.title p
       /\ avatar_src (avatar c) = avatarUrl s0.
Proof.
  intros Hp Ha Hl He.
  pose proof (fetch_ok b slug p ls Hp Hl) as Hf. rewrite Ha in Hf.
  unfold avatar_event in Hf.
  split.
  - intros v. unfold load. rewrite Hf. absent.
  - pose proof (reduce_ok b slug s0 p ls Hp Hl) as Hs.
    rewrite Ha in Hs. unfold avatar_after in Hs.
    destruct (render_loaded parse (reduce s0 (load b slug)) p)
      as (log & c & Hr & _ & Hav & Hh & _).
    1-3: rewrite Hs; cbn; trivial.
    exists log, c. split; [exact Hr|]. split; [exact Hh|].
    rewrite Hav, Hs. reflexivity.
Qed.

Lemma failed_avatar_keeps_previous_witness :
  exists log c,
    render MiniUrl.parse
           (session [(Gallery.service, "carol"); (Gallery.service, "alice")])
    = (log, Normal (PageCard c))
    /\ heading c = "Alice"
    /\ avatar_src (avatar c) = Some "https://cdn.example.org/carol.png".
Proof.
  destruct (failed_avatar_keeps_previous Gallery.service MiniUrl.parse "alice"
              Sample.alice_page Store.no_rows
              (Store.order true
                 (Store.of_page 7 (Store.links Gallery.store)))
              (loaded_state Gallery.service "carol")) as (_ & H);
    try reflexivity.
  exact H.
Defined.

(* ------------------------------------------------------------------ *)
(** ** Further properties of the render *)

Section CardFacts.

Variable parse : string -> option Url.t.

Lemma render_link_exact (l : Link.t) :
  exists a,
    render_link parse l
    = (invalid_url_entries parse [l], Normal a)
    /\ shows l a /\ img_src a = image_source parse l.
Proof.
  unfold render_link, invalid_url_entries, unparsable, image_source. cbn.
  destruct (truthy (Link.image_url l)); cbn.
  - eexists. split; [reflexivity|]. cbn. repeat split.
  - rewrite getFaviconUrl_cases. destruct (parse (Link.url l)); cbn;
      (eexists; split; [reflexivity|]; cbn; repeat split).
Qed.

Lemma invalid_url_entries_cons (l : Link.t) (ls : list Link.t) :
  invalid_url_entries parse (l :: ls)
  = invalid_url_entries parse [l] ++ invalid_url_entries parse ls.
Proof.
  unfold invalid_url_entries. cbn.
  destruct (unparsable parse l); reflexivity.
Qed.

Lemma mapM_render_link_exact (ls : list Link.t) :
  exists l',
    mapM (render_link parse) ls = (invalid_url_entries parse ls, Normal l')
    /\ Forall2 (fun l a => shows l a /\ img_src a = image_source parse l) ls l'.
Proof.
  induction ls as [|l ls IH].
  - exists []. split; [reflexivity | constructor].
  - destruct (render_link_exact l) as (a & Ha & Hs).
    destruct IH as (l' & Hm & Hf).
    exists (a :: l'). split; [|constructor; assumption].
    rewrite invalid_url_entries_cons. cbn. rewrite Ha. cbn. rewrite Hm.
    cbn. now rewrite app_nil_r.
Qed.

(** The card in full, for a state that shows it. *)
Lemma render_card_exact (s : State) (p : Page.t) :
  loading s = false ->
  truthy (error s) = false ->
  page s = Some p ->
  exists c,
    render parse s = (invalid_url_entries parse (links s), Normal (PageCard c))
    /\ (link_box c = None <-> links s = [])
    /\ Forall2 (fun l a => shows l a /\ img_src a = image_source parse l)
               (links s) (anchors c).
Proof.
  intros Hl He Hp. unfold render, render_card. rewrite Hl, He, Hp.
  destruct (links s) as [|l ls] eqn:Hls.
  - cbn. eexists. split; [reflexivity|]. cbn. split; [tauto | constructor].
  - destruct (mapM_render_link_exact (l :: ls)) as (l' & Hm & Hf).
    replace (0 <? List.length (l :: ls))%nat with true by reflexivity.
    rewrite Hm. cbn. rewrite !app_nil_r.
    eexists. split; [reflexivity|]. cbn. split; [|exact Hf].
    split; discriminate.
Qed.

End CardFacts.

(** X8. In a state that shows the page card there is one anchor per stored
    link, in the stored order, with the link's id as key and its url as
    address; the box that holds them is rendered exactly when there is at
    least one link. *)
Theorem one_anchor_per_link
    (parse : string -> option Url.t) (s : State) (p : Page.t) :
  loading s = false ->
  truthy (error s) = false ->
  page s = Some p ->
  exists log c,
    render parse s = (log, Normal (PageCard c))
    /\ (link_box c = None <-> links s = [])
    /\ List.length (anchors c) = List.length (links s)
    /\ map key (anchors c) = map Link.id (links s)
    /\ map href (anchors c) = map Link.url (links s).
Proof.
  intros Hl He Hp.
  destruct (render_card_exact parse s p Hl He Hp) as (c & Hr & Hbox & Hf).
  exists (invalid_url_entries parse (links s)), c.
  split; [exact Hr|]. split; [exact Hbox|].
  clear Hr Hbox. induction Hf as [|l a ls l' [Hs _] _ IH]; [now repeat split|].
  destruct IH as (IH1 & IH2 & IH3). destruct Hs as (Hk & Hh & _).
  cbn. rewrite IH1, IH2, IH3, Hk, Hh. now repeat split.
Qed.

Lemma one_anchor_per_link_witness :
  exists log c,
    render MiniUrl.parse (loaded_state Gallery.service "alice")
    = (log, Normal (PageCard c))
    /\ map key (anchors c) = [32%Z; 33%Z; 31%Z].
Proof.
  destruct (one_anchor_per_link MiniUrl.parse
              (loaded_state Gallery.service "alice") Sample.alice_page)
    as (log & c & Hr & _ & _ & Hk & _); try reflexivity.
  exists log, c. split; [exact Hr | exact Hk].
Defined.

(** X9. The image of each anchor is the link's own [image_url] when that is
    a non-empty string; when it is null or the empty string, it is the
    favicon address of the host of the link's url if the url parses, and no
    source at all if it does not. *)
Theorem link_image_source
    (parse : string -> option Url.t) (s : State) (p : Page.t) :
  loading s = false ->
  truthy (error s) = false ->
  page s = Some p ->
  exists log c,
    render parse s = (log, Normal (PageCard c))
    /\ Forall2
         (fun l a =>
            (forall u, Link.image_url l = Some u -> u <> "" ->
                       img_src a = Some u)
            /\ (Link.image_url l = None \/ Link.image_url l = Some "" ->
                img_src a = option_map
                              (fun h => ("https://www.google.com/s2/favicons?domain="
                                         ++ Url.hostname h ++ "&sz=64")%string)
                              (parse (Link.url l))))
         (links s) (anchors c).
Proof.
  intros Hl He Hp.
  destruct (render_card_exact parse s p Hl He Hp) as (c & Hr & _ & Hf).
  exists (invalid_url_entries parse (links s)), c. split; [exact Hr|].
  clear Hr. induction Hf as [|l a ls l' [_ Hsrc] _ IH]; constructor; trivial.
  rewrite Hsrc. unfold image_source. split.
  - intros u Hu Hne. rewrite Hu. cbn.
    apply String.eqb_neq in Hne. now rewrite Hne.
  - intros [Hu|Hu]; rewrite Hu; reflexivity.
Qed.

Lemma link_image_source_witness :
  exists log c,
    render MiniUrl.parse (loaded_state Gallery.service "carol")
    = (log, Normal (PageCard c))
    /\ map img_src (anchors c)
       = [Some "https://www.google.com/s2/favicons?domain=carol.example.org&sz=64"].
Proof.
  destruct (link_image_source MiniUrl.parse
              (loaded_state Gallery.service "carol") Gallery.carol_page)
    as (log & c & Hr & _); try reflexivity.
  exists log, c. split; [exact Hr|].
  cbv in Hr. inversion Hr. reflexivity.
Defined.

(** X10. Rendering the page card writes to the console one "Invalid URL:"
    entry for each link that has no image of its own and whose url does not
    parse, in the order of the links, and nothing else; this happens at
    every render of such a state. *)
Theorem render_logs_unparsable_links
    (parse : string -> option Url.t) (s : State) (p : Page.t) :
  loading s = false ->
  truthy (error s) = false ->
  page s = Some p ->
  trace (render parse s)
  = map (fun l => ConsoleError "Invalid URL:" (PStr (Link.url l)))
        (filter (unparsable parse) (links s)).
Proof.
  intros Hl He Hp.
  destruct (render_card_exact parse s p Hl He Hp) as (c & Hr & _).
  now rewrite Hr.
Qed.

Lemma render_logs_unparsable_links_witness :
  trace (render MiniUrl.parse (loaded_state Sample.service "alice"))
  = [ConsoleError "Invalid URL:" (PStr "not a url")].
Proof.
  apply (render_logs_unparsable_links MiniUrl.parse
           (loaded_state Sample.service "alice") Sample.alice_page);
    reflexivity.
Defined.

(* ------------------------------------------------------------------ *)
(** ** The fallback when the default asset loads *)

(** X11. For the image of a rendered anchor whose source fails to load,
    when the default asset does load: the handler runs once, and the
    element ends with the default asset as source. *)
Theorem fallback_substitutes_default
    (available : string -> bool) (a : Anchor) (u : string) (n : nat) :
  img_src a = Some u ->
  available u = false ->
  available Dom.default_asset = true ->
  Dom.firings available (2 + n) (link_image a) = 1
  /\ Dom.src (snd (Dom.settle available (2 + n) (link_image a)))
     = Some "/assets/react.svg".
Proof.
  intros Ha Hu Hd. unfold link_image, Dom.firings. rewrite Ha. cbn.
  rewrite Hu. cbn. rewrite Hd. cbn. now split.
Qed.

Lemma fallback_substitutes_default_witness :
  Dom.firings (fun u => String.eqb u "/assets/react.svg") 2
              (link_image (mkAnchor 32 "https://shop.example.org" "_blank"
                             "noopener noreferrer"
                             (Some "https://cdn.example.org/shop.png")
                             "Shop" "Shop" (Some "My shop"))) = 1.
Proof.
  apply (fallback_substitutes_default
           (fun u => String.eqb u "/assets/react.svg") _
           "https://cdn.example.org/shop.png" 0); reflexivity.
Defined.

(* ------------------------------------------------------------------ *)
(** ** The four views over the runs of the effect *)





(* ------------------------------------------------------------------ *)
(** ** Loads on a component that kept an error

    Line 31 resets [loading] at the start of every load; the error is set
    at line 81 and reset nowhere. *)



(** C4 (evaluation of the code). On a component that kept the error of an
    earlier load, let the page lookup succeed with page [p] and the service
    answer the link query of [p] with the stored rows that reference [p].
    The load stores those rows and sets no error, and the component then
    shows the error text of the earlier load: no anchor is rendered,
    however many rows there are. *)
Theorem kept_error_hides_links
    (b : Backend) (parse : string -> option Url.t)
    (slug : string) (p : Page.t) (rows : list Link.t) (s0 : State) :
  pages_single b slug = Success p ->
  (forall ascending,
      Store.answers_from rows (Page.id p) ascending
                         (links_ordered b (Page.id p) ascending)) ->
  error s0 = Some generic_error ->
  exists ls,
    In (SetLinks ls) (load b slug)
    /\ Permutation ls (Store.of_page (Page.id p) rows)
    /\ links (reduce s0 (load b slug)) = ls
    /\ (forall v, ~ In (SetError v) (load b slug))
    /\ render parse (reduce s0 (load b slug))
       = ([], Normal (ErrorText (Some "Failed to load page. Please try again."))).
Proof.
  intros Hp Hl He.
  destruct (Hl true) as (ls & Hls & Hperm & _).
  exists ls.
  pose proof (reduce_ok b slug s0 p ls Hp Hls) as Hs.
  split; [|split; [exact Hperm|split; [|split]]].
  - unfold load. rewrite (fetch_ok b slug p ls Hp Hls). cbn. tauto.
  - now rewrite Hs.
  - intros v. unfold load. rewrite (fetch_ok b slug p ls Hp Hls).
    destruct (images_single b (Page.user_id p)); absent.
  - rewrite Hs. unfold render. cbn. rewrite He. reflexivity.
Qed.

Lemma kept_error_hides_links_witness :
  error (session [(Sample.flaky, "alice")]) = Some generic_error /\
  List.length (Store.of_page 7 (Store.links Sample.store)) = 3 /\
  render MiniUrl.parse
         (session [(Sample.flaky, "alice"); (Sample.service, "alice")])
  = ([], Normal (ErrorText (Some generic_error))).
Proof.
  split; [reflexivity|]. split; [reflexivity|].
  destruct (kept_error_hides_links Sample.service MiniUrl.parse "alice"
              Sample.alice_page (Store.links Sample.store)
              (session [(Sample.flaky, "alice")]))
    as (ls & _ & _ & _ & _ & Hr);
    [reflexivity | intros asc; apply StoreFacts.backend_answers
     | reflexivity |].
  exact Hr.
Defined.
